(** * StyleSwap: the generation workflow of [src/App.tsx]

    A shallow embedding of the state held by the [App] component (its eight
    [useState] cells), of its event handlers, and of the asynchronous calls
    the handlers leave outstanding ([generateBackdrop], [FileReader],
    [window.aistudio]).  Handlers are state transformers written with the
    component's own setters; an [async] handler is split at its [await] into
    the part run by the click and the continuation run when the promise
    settles.  The event loop is a step function over a [World]: the component
    state plus the calls that have not settled yet.  [View] holds the
    conditions the rendered tree branches on, and [downloadImage] the
    export. *)

From Stdlib Require Import String Ascii Bool Arith ZArith Lia.
From Stdlib Require Import DecimalString DecimalPos DecimalZ.
From stdpp Require Import base list.

Local Open Scope string_scope.

(** ** JavaScript strings and truthiness *)

Module Js.

(** [!!s] for a JavaScript string: only the empty string is falsy. *)
Definition truthy (s : string) : bool :=
  match s with
  | EmptyString => false
  | String _ _ => true
  end.

(** [!!x] for a value of type [string | null] (or [string | undefined]). *)
Definition truthy_opt (x : option string) : bool :=
  match x with
  | Some s => truthy s
  | None => false
  end.

(** [a || b] with [a : string]. *)
Definition or (a b : string) : string :=
  if truthy a then a else b.

(** [a || b] with [a] possibly [undefined]. *)
Definition or_opt (a : option string) (b : string) : string :=
  match a with
  | Some s => or s b
  | None => b
  end.

(** [hay.includes(needle)]: [needle] occurs at some position of [hay]. *)
Fixpoint includes (needle hay : string) : bool :=
  if String.prefix needle hay then true
  else match hay with
       | EmptyString => false
       | String _ rest => includes needle rest
       end.

(** [x?.includes(needle)] used as a condition: [undefined] is falsy. *)
Definition includes_opt (needle : string) (x : option string) : bool :=
  match x with
  | Some s => includes needle s
  | None => false
  end.

(** The relation [includes] decides: [needle] is a contiguous part of
    [hay]. *)
Definition occurs_in (needle hay : string) : Prop :=
  exists before after, hay = before ++ needle ++ after.

End Js.

(** ** Data model *)

(** [AppStatus] of [./types], with the four members [App.tsx] uses. *)
Inductive AppStatus := IDLE | GENERATING | SUCCESS | ERROR.

(** [Preset] of [./types]: the fields [App.tsx] reads. *)
Record Preset := mkPreset {
  id : string;
  name : string;
  description : string;
  icon : string
}.

(** The [useState] cells of [App], in declaration order. *)
Record AppState := mkAppState {
  status : AppStatus;
  originalImage : option string;
  originalMimeType : string;
  resultImage : option string;
  selectedPreset : Preset;
  customPrompt : string;
  error : option string;
  needsApiKey : bool
}.

(** The setters returned by [useState]. *)
Definition setStatus (v : AppStatus) (s : AppState) : AppState :=
  mkAppState v (originalImage s) (originalMimeType s) (resultImage s)
             (selectedPreset s) (customPrompt s) (error s) (needsApiKey s).

Definition setOriginalImage (v : option string) (s : AppState) : AppState :=
  mkAppState (status s) v (originalMimeType s) (resultImage s)
             (selectedPreset s) (customPrompt s) (error s) (needsApiKey s).

Definition setOriginalMimeType (v : string) (s : AppState) : AppState :=
  mkAppState (status s) (originalImage s) v (resultImage s)
             (selectedPreset s) (customPrompt s) (error s) (needsApiKey s).

Definition setResultImage (v : option string) (s : AppState) : AppState :=
  mkAppState (status s) (originalImage s) (originalMimeType s) v
             (selectedPreset s) (customPrompt s) (error s) (needsApiKey s).

Definition setSelectedPreset (v : Preset) (s : AppState) : AppState :=
  mkAppState (status s) (originalImage s) (originalMimeType s) (resultImage s)
             v (customPrompt s) (error s) (needsApiKey s).

Definition setCustomPrompt (v : string) (s : AppState) : AppState :=
  mkAppState (status s) (originalImage s) (originalMimeType s) (resultImage s)
             (selectedPreset s) v (error s) (needsApiKey s).

Definition setError (v : option string) (s : AppState) : AppState :=
  mkAppState (status s) (originalImage s) (originalMimeType s) (resultImage s)
             (selectedPreset s) (customPrompt s) v (needsApiKey s).

Definition setNeedsApiKey (v : bool) (s : AppState) : AppState :=
  mkAppState (status s) (originalImage s) (originalMimeType s) (resultImage s)
             (selectedPreset s) (customPrompt s) (error s) v.

(** Statement sequencing: [s ;> f ;> g] runs [f], then [g]. *)
Notation "s ;> f" := (f s) (at level 45, left associativity, only parsing).

(** The state of the first render; [preset0] is [BACKDROP_PRESETS[0]]. *)
Definition initialState (preset0 : Preset) : AppState :=
  mkAppState IDLE None "" None preset0 "" None false.

(** A file picked in the file input: what [readAsDataURL] will produce for
    it, and its [type]. *)
Record File := mkFile {
  file_dataURL : string;
  file_type : string
}.

(** The arguments of one [generateBackdrop] call. *)
Record Request := mkRequest {
  req_image : string;
  req_mimeType : string;
  req_prompt : string
}.

(** How a [generateBackdrop] promise settles: with the result string, or by
    throwing [err], of which the handler reads [err.message] only. *)
Inductive Outcome :=
| Resolved (result : string)
| Rejected (message : option string).

(** ** Event handlers *)

(** [reader.onload] inside [handleFileChange]. *)
Definition reader_onload (f : File) (s : AppState) : AppState :=
  s ;> setOriginalImage (Some (file_dataURL f))
    ;> setOriginalMimeType (file_type f)
    ;> setResultImage None
    ;> setStatus IDLE
    ;> setError None.

(** [handleStartOver].  Its last statement empties the DOM file input, which
    is no part of the component state. *)
Definition handleStartOver (s : AppState) : AppState :=
  s ;> setOriginalImage None
    ;> setResultImage None
    ;> setOriginalMimeType ""
    ;> setStatus IDLE
    ;> setError None
    ;> setCustomPrompt "".

(** [customPrompt || selectedPreset.description]. *)
Definition resolvePrompt (custom : string) (preset : Preset) : string :=
  Js.or custom (description preset).

(** [handleGenerate] up to its [await]: the state it leaves, and the call it
    issues, if any. *)
Definition handleGenerate (s : AppState) : AppState * option Request :=
  match originalImage s with
  | Some img =>
      if Js.truthy img then
        (s ;> setStatus GENERATING ;> setError None,
         Some (mkRequest img (originalMimeType s)
                 (resolvePrompt (customPrompt s) (selectedPreset s))))
      else (s, None)
  | None => (s, None)
  end.

Definition API_KEY_MARKER : string := "API Key configuration".
Definition FALLBACK_MESSAGE : string := "Something went wrong.".

(** [handleGenerate] after its [await]: the rest of the [try] block when the
    promise resolved, the [catch] block when it rejected.  It runs on the
    state current when the promise settles. *)
Definition handleGenerate_settled (o : Outcome) (s : AppState) : AppState :=
  match o with
  | Resolved result =>
      s ;> setResultImage (Some result)
        ;> setStatus SUCCESS
  | Rejected message =>
      let s' := s ;> setError (Some (Js.or_opt message FALLBACK_MESSAGE))
                  ;> setStatus ERROR in
      if Js.includes_opt API_KEY_MARKER message
      then s' ;> setNeedsApiKey true
      else s'
  end.

(** The [onClick] of a preset button. *)
Definition selectPreset (preset : Preset) (s : AppState) : AppState :=
  s ;> setSelectedPreset preset
    ;> setCustomPrompt "".

(** The [onChange] of the custom prompt text area. *)
Definition typePrompt (text : string) (s : AppState) : AppState :=
  s ;> setCustomPrompt text.

(** [handleSelectKey] after [await window.aistudio.openSelectKey()]. *)
Definition handleSelectKey_returned (s : AppState) : AppState :=
  s ;> setNeedsApiKey false.

(** [checkKey] after [await window.aistudio.hasSelectedApiKey()]. *)
Definition checkKey_returned (hasKey : bool) (s : AppState) : AppState :=
  s ;> setNeedsApiKey (negb hasKey).

(** [disabled] of both generate buttons. *)
Definition generateDisabled (s : AppState) : bool :=
  negb (Js.truthy_opt (originalImage s))
  || match status s with GENERATING => true | _ => false end.

(** ** The event loop *)

(** The component state together with the asynchronous work that has been
    started and has not called back yet. *)
Record World := mkWorld {
  app : AppState;
  (** [generateBackdrop] calls whose promise is pending, oldest first *)
  calls : list Request;
  (** [FileReader]s whose [onload] has not fired, oldest first *)
  readers : list File;
  (** [openSelectKey] flows that have not returned *)
  selecting : nat;
  (** the [hasSelectedApiKey] query of the mount effect is pending *)
  checking : bool
}.

Definition with_app (f : AppState -> AppState) (w : World) : World :=
  mkWorld (f (app w)) (calls w) (readers w) (selecting w) (checking w).

(** A call of [handleGenerate]: it runs to the [await], where the call it
    issued, if any, joins the pending ones. *)
Definition call_handleGenerate (w : World) : World :=
  let '(s, issued) := handleGenerate (app w) in
  mkWorld s (calls w ++ option_list issued) (readers w)
          (selecting w) (checking w).

(** The [i]-th pending [generateBackdrop] call settles with [o] and the
    [handleGenerate] that awaited it resumes. *)
Definition settle_generate (i : nat) (o : Outcome) (w : World) : World :=
  match calls w !! i with
  | Some _ => mkWorld (handleGenerate_settled o (app w))
                      (delete i (calls w)) (readers w)
                      (selecting w) (checking w)
  | None => w
  end.

Inductive Event :=
| CheckKeyReturns (hasKey : bool)
| ClickConnect
| SelectKeyReturns
| ChooseFile (file : option File)
| ReaderLoads (i : nat)
| ClickStartOver
| ClickGenerate
| GenerateSettles (i : nat) (o : Outcome)
| ClickPreset (i : nat)
| TypePrompt (text : string).

Section EventLoop.

(** [window.aistudio] is defined. *)
Variable aistudio : bool.

(** [BACKDROP_PRESETS] of [./constants]; [useState(BACKDROP_PRESETS[0])]
    is typed [Preset], so the catalog has a first entry. *)
Variable preset0 : Preset.
Variable more_presets : list Preset.

Definition BACKDROP_PRESETS : list Preset := preset0 :: more_presets.

(** The mount effect runs [checkKey], which queries the host only when
    [window.aistudio] is defined. *)
Definition initialWorld : World :=
  mkWorld (initialState preset0) [] [] 0 aistudio.

(** One turn of the event loop.  While [needsApiKey] holds the component
    renders the onboarding screen only, whose single control is the
    connect button; otherwise it renders the editor, where the generate
    buttons obey [disabled].  An event whose control is not rendered or is
    disabled, or whose asynchronous call does not exist, does nothing. *)
Definition step (w : World) (e : Event) : World :=
  match e with
  | CheckKeyReturns hasKey =>
      if checking w
      then mkWorld (checkKey_returned hasKey (app w))
                   (calls w) (readers w) (selecting w) false
      else w
  | ClickConnect =>
      if needsApiKey (app w) && aistudio
      then mkWorld (app w) (calls w) (readers w) (S (selecting w))
                   (checking w)
      else w
  | SelectKeyReturns =>
      match selecting w with
      | S n => mkWorld (handleSelectKey_returned (app w))
                       (calls w) (readers w) n (checking w)
      | O => w
      end
  | ChooseFile file =>
      if needsApiKey (app w) then w
      else match file with
           | Some f => mkWorld (app w) (calls w) (readers w ++ [f])
                               (selecting w) (checking w)
           | None => w
           end
  | ReaderLoads i =>
      match readers w !! i with
      | Some f => mkWorld (reader_onload f (app w)) (calls w)
                          (delete i (readers w)) (selecting w) (checking w)
      | None => w
      end
  | ClickStartOver =>
      if needsApiKey (app w) then w else with_app handleStartOver w
  | ClickGenerate =>
      if needsApiKey (app w) || generateDisabled (app w) then w
      else call_handleGenerate w
  | GenerateSettles i o => settle_generate i o w
  | ClickPreset i =>
      if needsApiKey (app w) then w
      else match BACKDROP_PRESETS !! i with
           | Some p => with_app (selectPreset p) w
           | None => w
           end
  | TypePrompt text =>
      if needsApiKey (app w) then w else with_app (typePrompt text) w
  end.

Definition run (w : World) (es : list Event) : World :=
  fold_left step es w.

(** The worlds the application can be in. *)
Definition reachable (w : World) : Prop :=
  exists es, w = run initialWorld es.

End EventLoop.

(** ** Worked scenarios *)

Module Demo.

(** A catalog entry with the name and description of the "Studio White"
    preset; [./constants] is not part of the sources at hand, so [id] and
    [icon] are stand-ins. *)
Definition studioWhite : Preset :=
  mkPreset "studio-white" "Studio White" "clean white studio backdrop"
           "fa-camera".

Definition photo1 : File := mkFile "data:image/png;base64,AAAA" "image/png".
Definition photo2 : File := mkFile "data:image/jpeg;base64,BBBB" "image/jpeg".

(** A host without [window.aistudio] and a catalog of one preset. *)
Definition start : World := initialWorld false studioWhite.
Definition play : list Event -> World := run false studioWhite [] start.

(** Upload a photo and press generate. *)
Definition upload_generate : list Event :=
  [ChooseFile (Some photo1); ReaderLoads 0; ClickGenerate].

(** ... then start over while the call is pending. *)
Definition upload_generate_reset : list Event :=
  upload_generate ++ [ClickStartOver].

(** ... then upload another photo and press generate again. *)
Definition two_generations : list Event :=
  upload_generate_reset
  ++ [ChooseFile (Some photo2); ReaderLoads 0; ClickGenerate].

(** Upload, generate, receive the result, press generate again. *)
Definition generate_twice : list Event :=
  upload_generate ++ [GenerateSettles 0 (Resolved "R1"); ClickGenerate].

(** Upload, generate, receive the result. *)
Definition finished : list Event :=
  upload_generate ++ [GenerateSettles 0 (Resolved "R1")].

(** Upload, generate, and the service rejects the credential. *)
Definition credential_failure : list Event :=
  upload_generate
  ++ [GenerateSettles 0 (Rejected (Some "API Key configuration invalid"))].

End Demo.

(** ** What the component renders *)

(** The [return] of [App], reduced to the conditions it branches on. *)
Module View.

(** The onboarding screen replaces the whole editor. *)
Definition onboarding (s : AppState) : bool := needsApiKey s.





(** The preset button drawn as selected:
    [selectedPreset.id === preset.id && !customPrompt]. *)
Definition presetHighlighted (preset : Preset) (s : AppState) : bool :=
  String.eqb (id (selectedPreset s)) (id preset)
  && negb (Js.truthy (customPrompt s)).

End View.

(** ** Export *)

(** The anchor element [downloadImage] builds and clicks. *)
Record Download := mkDownload {
  href : string;
  download : string
}.

(** [`${n}`] for an integral number below 1e21 in magnitude, which every
    [Date.now()] is: its decimal digits, with a minus sign when negative. *)
Definition decimal (n : Z) : string :=
  NilZero.string_of_int (Z.to_int n).

Definition downloadName (now : Z) : string :=
  "styleswap-gemini3-" ++ decimal now ++ ".png".

(** [downloadImage], with [now] the value of [Date.now()]: the download it
    triggers, if any. *)
Definition downloadImage (now : Z) (s : AppState) : option Download :=
  match resultImage s with
  | Some r => if Js.truthy r then Some (mkDownload r (downloadName now))
              else None
  | None => None
  end.

(** ** Vocabulary of the properties *)

(** The failure message has the marker that [handleGenerate] looks for. *)
Definition carries_marker (message : option string) : Prop :=
  exists m, message = Some m /\ Js.occurs_in API_KEY_MARKER m.

(** The text shown for a failure that came with [message]. *)
Definition shown_message (message : option string) : string :=
  match message with
  | Some m => if String.eqb m "" then FALLBACK_MESSAGE else m
  | None => FALLBACK_MESSAGE
  end.

(** The four cells a response writes to are the same in [w'] as in [w]. *)
Definition same_outcome_cells (w w' : World) : Prop :=
  status (app w') = status (app w)
  /\ resultImage (app w') = resultImage (app w)
  /\ error (app w') = error (app w)
  /\ needsApiKey (app w') = needsApiKey (app w).

(** Stale-response discard, for the attempts a reset supersedes: once the
    start-over control has been used, no response to a call pending at that
    moment changes the cells a response writes to. *)
Definition stale_response_discarded (aistudio : bool) (preset0 : Preset)
    (more_presets : list Preset) : Prop :=
  forall (es : list Event) (i : nat) (o : Outcome),
    let w0 := run aistudio preset0 more_presets
                (initialWorld aistudio preset0) es in
    needsApiKey (app w0) = false ->
    let w := step aistudio preset0 more_presets w0 ClickStartOver in
    same_outcome_cells w
      (step aistudio preset0 more_presets w (GenerateSettles i o)).

(** Whenever the status is [IDLE] there is no result. *)
Definition idle_without_result (s : AppState) : Prop :=
  status s = IDLE -> resultImage s = None.

(** While the status is [GENERATING], the call issued last is pending and
    was issued for the image on screen. *)
Definition generating_for_shown_image (w : World) : Prop :=
  status (app w) = GENERATING ->
  exists cs r,
    calls w = (cs ++ [r])%list
    /\ originalImage (app w) = Some (req_image r)
    /\ originalMimeType (app w) = req_mimeType r
    /\ req_image r <> "".

(** The status and the error cell agree: no error while idle or generating,
    an error in status [ERROR], and never an empty one. *)
Definition error_agrees (s : AppState) : Prop :=
  match status s with
  | IDLE | GENERATING => error s = None
  | ERROR => exists e, error s = Some e /\ e <> ""
  | SUCCESS => forall e, error s = Some e -> e <> ""
  end.

(** Without [window.aistudio] no host query and no selection flow is ever
    pending. *)
Definition nothing_pending_at_host (w : World) : Prop :=
  checking w = false /\ selecting w = 0.

(** ** Facts about the JavaScript operators *)

Section JsFacts.

Import Js.

Lemma truthy_nonempty (s : string) : truthy s = true <-> s <> "".
Proof. destruct s; simpl; split; congruence. Qed.

Lemma or_nonempty (a b : string) : a <> "" -> or a b = a.
Proof. intros Ha. unfold or. apply truthy_nonempty in Ha. now rewrite Ha. Qed.

Lemma or_empty (b : string) : or "" b = b.
Proof. reflexivity. Qed.

Lemma prefix_app (needle hay : string) :
  String.prefix needle hay = true <-> exists rest, hay = needle ++ rest.
Proof.
  revert hay. induction needle as [|c needle IH]; intros hay.
  - destruct hay; simpl; split; eauto.
  - destruct hay as [|d hay]; simpl.
    + split; [discriminate | intros [rest H]; discriminate].
    + destruct (ascii_dec c d) as [->|Hcd].
      * rewrite IH. split; intros [rest H]; exists rest; congruence.
      * split; [discriminate | intros [rest H]; congruence].
Qed.

Lemma includes_unfold (needle hay : string) :
  includes needle hay =
  String.prefix needle hay
  || match hay with
     | EmptyString => false
     | String _ rest => includes needle rest
     end.
Proof. destruct hay; cbn [includes]; now destruct (String.prefix _ _). Qed.

(** [includes] decides occurrence as a contiguous part. *)
Lemma includes_occurs (needle hay : string) :
  includes needle hay = true <-> occurs_in needle hay.
Proof.
  split.
  - induction hay as [|c hay IH]; rewrite includes_unfold;
      intros [Hp|Hr]%orb_prop; try discriminate.
    + apply prefix_app in Hp as [rest Hp]. now exists "", rest.
    + apply prefix_app in Hp as [rest Hp]. now exists "", rest.
    + destruct (IH Hr) as (before & after & ->).
      now exists (String c before), after.
  - intros (before & after & ->).
    induction before as [|c before IH]; rewrite includes_unfold.
    + apply orb_true_intro. left. apply prefix_app. now exists after.
    + apply orb_true_intro. right. exact IH.
Qed.

Lemma not_includes_occurs (needle hay : string) :
  includes needle hay = false <-> ~ occurs_in needle hay.
Proof.
  rewrite <- includes_occurs. now destruct (includes needle hay).
Qed.

End JsFacts.

(** ** Facts about the handlers *)

Lemma handleGenerate_accepts (s : AppState) (img : string) :
  originalImage s = Some img -> img <> "" ->
  handleGenerate s =
  (s ;> setStatus GENERATING ;> setError None,
   Some (mkRequest img (originalMimeType s)
           (resolvePrompt (customPrompt s) (selectedPreset s)))).
Proof.
  intros Himg Hne. unfold handleGenerate. rewrite Himg.
  apply truthy_nonempty in Hne. now rewrite Hne.
Qed.

Lemma handleGenerate_refuses (s : AppState) :
  Js.truthy_opt (originalImage s) = false -> handleGenerate s = (s, None).
Proof.
  unfold handleGenerate, Js.truthy_opt.
  destruct (originalImage s) as [img|]; [|reflexivity].
  now intros ->.
Qed.

(** Whatever it does, [handleGenerate] issues a call exactly when it leaves
    the state it found, and then with the prompt the state resolves to. *)
Lemma handleGenerate_issued (s s' : AppState) (r : Request) :
  handleGenerate s = (s', Some r) ->
  originalImage s = Some (req_image r)
  /\ req_image r <> ""
  /\ req_mimeType r = originalMimeType s
  /\ req_prompt r = resolvePrompt (customPrompt s) (selectedPreset s)
  /\ s' = (s ;> setStatus GENERATING ;> setError None).
Proof.
  unfold handleGenerate. destruct (originalImage s) as [img|]; [|discriminate].
  destruct (Js.truthy img) eqn:Ht; [|discriminate].
  intros [= <- <-]. simpl. apply truthy_nonempty in Ht. auto.
Qed.

Lemma call_handleGenerate_accepts (w : World) (img : string) :
  originalImage (app w) = Some img -> img <> "" ->
  call_handleGenerate w =
  mkWorld (app w ;> setStatus GENERATING ;> setError None)
          (calls w ++ [mkRequest img (originalMimeType (app w))
                         (resolvePrompt (customPrompt (app w))
                                        (selectedPreset (app w)))])
          (readers w) (selecting w) (checking w).
Proof.
  intros Himg Hne. unfold call_handleGenerate.
  now rewrite (handleGenerate_accepts _ _ Himg Hne).
Qed.

(** The call issued last settles: it leaves the pending ones as they were
    before it was issued. *)
Lemma settle_generate_last (o : Outcome) (s : AppState) (cs : list Request)
    (r : Request) (rd : list File) (sel : nat) (chk : bool) :
  settle_generate (length cs) o (mkWorld s (cs ++ [r]) rd sel chk) =
  mkWorld (handleGenerate_settled o s) cs rd sel chk.
Proof.
  unfold settle_generate; simpl.
  rewrite (list_lookup_middle cs [] r (length cs) eq_refl).
  now rewrite delete_middle, app_nil_r.
Qed.

Lemma settle_generate_pending (i : nat) (o : Outcome) (w : World)
    (r : Request) :
  calls w !! i = Some r ->
  settle_generate i o w =
  mkWorld (handleGenerate_settled o (app w)) (delete i (calls w))
          (readers w) (selecting w) (checking w).
Proof. intros H. unfold settle_generate. now rewrite H. Qed.

(** The prompt of the call [handleGenerate] issues, if it issues one. *)
Lemma handleGenerate_prompt (s : AppState) :
  option_map req_prompt (snd (handleGenerate s)) =
  if Js.truthy_opt (originalImage s)
  then Some (resolvePrompt (customPrompt s) (selectedPreset s))
  else None.
Proof.
  unfold handleGenerate, Js.truthy_opt.
  destruct (originalImage s) as [img|]; [|reflexivity].
  now destruct (Js.truthy img).
Qed.

(** ** Prompt resolution *)

(** C8. The prompt is [customPrompt || selectedPreset.description]: any
    non-empty custom text, untrimmed, is the prompt; empty custom text gives
    the preset's description, empty or not; and the call [handleGenerate]
    issues carries the prompt resolved from these two cells alone. *)
Theorem prompt_resolution (custom : string) (preset : Preset) (s : AppState) :
  (custom <> "" -> resolvePrompt custom preset = custom)
  /\ resolvePrompt "" preset = description preset
  /\ option_map req_prompt (snd (handleGenerate s)) =
     if Js.truthy_opt (originalImage s)
     then Some (resolvePrompt (customPrompt s) (selectedPreset s))
     else None.
Proof.
  split; [apply or_nonempty|split; [reflexivity|]].
  apply handleGenerate_prompt.
Qed.

(** A blank custom text is used as it is. *)
Lemma prompt_resolution_witness :
  resolvePrompt " " Demo.studioWhite = " ".
Proof.
  apply (prompt_resolution " " Demo.studioWhite
           (initialState Demo.studioWhite)).
  discriminate.
Defined.

(** ** Reset *)

(** C7. [handleStartOver] leaves status [IDLE] and clears the source image
    with its media type, the result, the error and the custom prompt; the
    selected preset and the credential flag are the two cells it keeps. *)
Theorem reset_clears (s : AppState) :
  handleStartOver s =
  mkAppState IDLE None "" None (selectedPreset s) "" None (needsApiKey s).
Proof. reflexivity. Qed.

(** ** Preset selection *)

(** C10. Clicking a preset button stores the preset and empties the custom
    prompt, touching no other cell, so that a generation started from there
    sends the preset's description. *)
Theorem preset_selection (preset : Preset) (s : AppState) :
  selectPreset preset s =
    mkAppState (status s) (originalImage s) (originalMimeType s)
               (resultImage s) preset "" (error s) (needsApiKey s)
  /\ option_map req_prompt (snd (handleGenerate (selectPreset preset s))) =
     if Js.truthy_opt (originalImage s)
     then Some (description preset)
     else None.
Proof.
  split; [reflexivity|]. now rewrite handleGenerate_prompt.
Qed.

(** ** A generation and its outcome *)

(** C6. With a source image present, [handleGenerate] sets [GENERATING] and
    issues one call with the image, its media type and the resolved prompt;
    when that call resolves with [R], the status is [SUCCESS] and
    [resultImage] is [R], and the call is no longer pending. *)
Theorem generate_success (w : World) (img R : string) :
  originalImage (app w) = Some img -> img <> "" ->
  let w1 := call_handleGenerate w in
  let w2 := settle_generate (length (calls w)) (Resolved R) w1 in
  status (app w1) = GENERATING
  /\ calls w1 = (calls w ++ [mkRequest img (originalMimeType (app w))
                               (resolvePrompt (customPrompt (app w))
                                              (selectedPreset (app w)))])%list
  /\ status (app w2) = SUCCESS
  /\ resultImage (app w2) = Some R
  /\ calls w2 = calls w.
Proof.
  intros Himg Hne w1 w2. subst w2 w1.
  rewrite (call_handleGenerate_accepts _ _ Himg Hne).
  rewrite settle_generate_last. simpl. auto.
Qed.

Lemma generate_success_witness :
  let w := Demo.play [ChooseFile (Some Demo.photo1); ReaderLoads 0] in
  let w1 := call_handleGenerate w in
  let w2 := settle_generate 0 (Resolved "R1") w1 in
  status (app w1) = GENERATING
  /\ calls w1 = [mkRequest "data:image/png;base64,AAAA" "image/png"
                           "clean white studio backdrop"]
  /\ status (app w2) = SUCCESS
  /\ resultImage (app w2) = Some "R1"
  /\ calls w2 = [].
Proof.
  apply (generate_success
           (Demo.play [ChooseFile (Some Demo.photo1); ReaderLoads 0])
           "data:image/png;base64,AAAA" "R1").
  - reflexivity.
  - discriminate.
Defined.

(** C4, as the code has it. With a source image present, a generation whose
    call fails ends with status [ERROR], [resultImage] as it was before the
    generation started, and nothing pending that was not pending before (no
    retry); [error] is the failure message itself when it is a non-empty
    string, and the fixed text "Something went wrong." when the message is
    empty or missing. *)
Theorem generate_failure (w : World) (img : string) (message : option string) :
  originalImage (app w) = Some img -> img <> "" ->
  let w1 := call_handleGenerate w in
  let w2 := settle_generate (length (calls w)) (Rejected message) w1 in
  status (app w2) = ERROR
  /\ error (app w2) = Some (shown_message message)
  /\ resultImage (app w2) = resultImage (app w)
  /\ calls w2 = calls w.
Proof.
  intros Himg Hne w1 w2. subst w2 w1.
  rewrite (call_handleGenerate_accepts _ _ Himg Hne).
  rewrite settle_generate_last.
  assert (Js.or_opt message FALLBACK_MESSAGE = shown_message message) as Hm.
  { destruct message as [[|c m]|]; reflexivity. }
  simpl. destruct (Js.includes_opt API_KEY_MARKER message);
    simpl; rewrite Hm; auto.
Qed.

Lemma generate_failure_witness :
  let w := Demo.play [ChooseFile (Some Demo.photo1); ReaderLoads 0] in
  let w2 := settle_generate 0 (Rejected (Some "quota exceeded"))
              (call_handleGenerate w) in
  status (app w2) = ERROR
  /\ error (app w2) = Some "quota exceeded"
  /\ resultImage (app w2) = None
  /\ calls w2 = [].
Proof.
  apply (generate_failure
           (Demo.play [ChooseFile (Some Demo.photo1); ReaderLoads 0])
           "data:image/png;base64,AAAA" (Some "quota exceeded")).
  - reflexivity.
  - discriminate.
Defined.

(** C4 as stated fails: a failure whose message is the empty string is not
    shown as the empty string. *)
Lemma generate_failure_counterexample :
  ~ (forall (s s' : AppState) (r : Request) (m : string),
       handleGenerate s = (s', Some r) ->
       error (handleGenerate_settled (Rejected (Some m)) s') = Some m).
Proof.
  intros H.
  specialize (H (reader_onload Demo.photo1 (initialState Demo.studioWhite))
                _ _ "" eq_refl).
  discriminate H.
Qed.

(** C9. When a call fails the status is [ERROR]; [needsApiKey] becomes true
    if the failure message contains "API Key configuration", and keeps its
    value if it does not. *)
Theorem credential_classification (s : AppState) (message : option string) :
  let s' := handleGenerate_settled (Rejected message) s in
  status s' = ERROR
  /\ (carries_marker message -> needsApiKey s' = true)
  /\ (~ carries_marker message -> needsApiKey s' = needsApiKey s).
Proof.
  assert (Js.includes_opt API_KEY_MARKER message = true
          <-> carries_marker message) as Hdec.
  { unfold carries_marker. destruct message as [m|]; simpl.
    - rewrite includes_occurs. split; [eauto|].
      now intros (m' & [= <-] & H).
    - split; [discriminate|]. now intros (m' & [=] & _). }
  simpl. destruct (Js.includes_opt API_KEY_MARKER message).
  - simpl. split; [reflexivity|]. split; [reflexivity|].
    intros Hn. exfalso. apply Hn, Hdec. reflexivity.
  - simpl. split; [reflexivity|]. split; [|reflexivity].
    intros Hc. apply Hdec in Hc. discriminate.
Qed.

Lemma credential_classification_witness :
  let s := fst (handleGenerate
                  (reader_onload Demo.photo1 (initialState Demo.studioWhite))) in
  needsApiKey (handleGenerate_settled
                 (Rejected (Some "API Key configuration invalid")) s) = true
  /\ needsApiKey (handleGenerate_settled
                    (Rejected (Some "quota exceeded")) s) = false.
Proof.
  intros s. split.
  - apply (credential_classification s
             (Some "API Key configuration invalid")).
    exists "API Key configuration invalid". split; [reflexivity|].
    now exists "", " invalid".
  - apply (credential_classification s (Some "quota exceeded")).
    intros (m & [= <-] & H). apply includes_occurs in H. discriminate H.
Defined.

(** ** When the result is cleared *)

(** C5, as the code has it. [handleStartOver] clears [resultImage];
    [handleGenerate] does not: the result keeps its value while the new
    generation runs, until a call that resolves replaces it. *)
Theorem result_clearing (s : AppState) (R : string) :
  resultImage (handleStartOver s) = None
  /\ resultImage (fst (handleGenerate s)) = resultImage s
  /\ resultImage (handleGenerate_settled (Resolved R) s) = Some R.
Proof.
  split; [reflexivity|]. split; [|reflexivity].
  unfold handleGenerate. destruct (originalImage s) as [img|]; [|reflexivity].
  now destruct (Js.truthy img).
Qed.

(** C5 as stated fails: a generation started on top of a finished one
    leaves the earlier result in place. *)
Lemma result_clearing_counterexample :
  ~ (forall (s s' : AppState) (r : Request),
       handleGenerate s = (s', Some r) -> resultImage s' = None).
Proof.
  intros H.
  specialize (H (app (Demo.play (Demo.upload_generate
                                   ++ [GenerateSettles 0 (Resolved "R1")])))
                _ _ eq_refl).
  discriminate H.
Qed.

(** ** Properties of the event loop *)

Section EventLoopFacts.

Variable aistudio : bool.
Variable preset0 : Preset.
Variable more_presets : list Preset.

Local Abbreviation step' := (step aistudio preset0 more_presets).
Local Abbreviation run' := (run aistudio preset0 more_presets).
Local Abbreviation reachable' := (reachable aistudio preset0 more_presets).

Lemma run_snoc (w : World) (es : list Event) (e : Event) :
  run' w (es ++ [e])%list = step' (run' w es) e.
Proof. unfold run. now rewrite fold_left_app. Qed.

Lemma reachable_initial : reachable' (initialWorld aistudio preset0).
Proof. now exists []. Qed.

Lemma reachable_step (w : World) (e : Event) :
  reachable' w -> reachable' (step' w e).
Proof. intros [es ->]. exists (es ++ [e])%list. now rewrite run_snoc. Qed.

(** Induction over the reachable worlds. *)
Lemma reachable_ind (P : World -> Prop) :
  P (initialWorld aistudio preset0) ->
  (forall w e, reachable' w -> P w -> P (step' w e)) ->
  forall w, reachable' w -> P w.
Proof.
  intros Hinit Hstep w [es ->].
  induction es as [|e es IH] using rev_ind; [exact Hinit|].
  rewrite run_snoc. apply Hstep; [now exists es | exact IH].
Qed.

Lemma handleGenerate_idle_without_result (s : AppState) :
  idle_without_result s -> idle_without_result (fst (handleGenerate s)).
Proof.
  intros H. unfold handleGenerate.
  destruct (originalImage s) as [img|]; [|exact H].
  destruct (Js.truthy img); [|exact H]. discriminate.
Qed.

Lemma handleGenerate_settled_idle_without_result (o : Outcome)
    (s : AppState) :
  idle_without_result (handleGenerate_settled o s).
Proof.
  destruct o as [R|message]; simpl; [discriminate|].
  destruct (Js.includes_opt _ _); discriminate.
Qed.

Lemma step_idle_without_result (w : World) (e : Event) :
  idle_without_result (app w) -> idle_without_result (app (step' w e)).
Proof.
  intros H. destruct e; simpl.
  - now destruct (checking w).
  - now destruct (needsApiKey (app w) && aistudio).
  - now destruct (selecting w).
  - destruct (needsApiKey (app w)); [exact H|]. now destruct file.
  - destruct (readers w !! i); [now intros _ | exact H].
  - destruct (needsApiKey (app w)); [exact H | now intros _].
  - destruct (needsApiKey (app w) || generateDisabled (app w)); [exact H|].
    unfold call_handleGenerate.
    pose proof (handleGenerate_idle_without_result _ H) as H'.
    now destruct (handleGenerate (app w)).
  - unfold settle_generate. destruct (calls w !! i); [|exact H].
    apply handleGenerate_settled_idle_without_result.
  - destruct (needsApiKey (app w)); [exact H|].
    now destruct (BACKDROP_PRESETS preset0 more_presets !! i).
  - now destruct (needsApiKey (app w)).
Qed.

(** C3, as the code has it. In every reachable world [resultImage] is
    empty while the status is [IDLE]: a result is only ever present with
    status [SUCCESS], [GENERATING] or [ERROR]. *)
Theorem idle_has_no_result (w : World) :
  reachable' w -> status (app w) = IDLE -> resultImage (app w) = None.
Proof.
  intros Hw. revert w Hw.
  apply (reachable_ind (fun w => idle_without_result (app w))).
  - now intros _.
  - intros w e _. apply step_idle_without_result.
Qed.

(** C2, as the code has it. While the status is [GENERATING] both generate
    buttons are disabled: pressing one changes no cell of the state and
    issues no call. *)
Theorem generate_ignored_while_generating (w : World) :
  status (app w) = GENERATING -> step' w ClickGenerate = w.
Proof.
  intros H. simpl. unfold generateDisabled. rewrite H.
  now rewrite !orb_true_r.
Qed.

(** The guard is the buttons' [disabled]: [handleGenerate] itself never
    reads the status. *)
Remark handleGenerate_ignores_status (st : AppStatus) (s : AppState) :
  snd (handleGenerate (setStatus st s)) = snd (handleGenerate s).
Proof.
  unfold handleGenerate. simpl.
  destruct (originalImage s) as [img|]; [|reflexivity].
  now destruct (Js.truthy img).
Qed.

(** C1, as the code has it. The response to any pending call, whatever has
    happened since the call was issued, is committed to the current state:
    when it resolves, the status becomes [SUCCESS] and [resultImage] the
    response, with [error] and [needsApiKey] kept; when it fails, the status
    becomes [ERROR] and [error] the shown message, [needsApiKey] is raised
    if the message has the marker, and [resultImage] is kept.  The source
    image, its media type, the preset and the custom prompt are kept in
    both cases. *)
Theorem response_always_committed (w : World) (i : nat) (r : Request)
    (o : Outcome) :
  calls w !! i = Some r ->
  let w' := step' w (GenerateSettles i o) in
  calls w' = delete i (calls w)
  /\ originalImage (app w') = originalImage (app w)
  /\ originalMimeType (app w') = originalMimeType (app w)
  /\ selectedPreset (app w') = selectedPreset (app w)
  /\ customPrompt (app w') = customPrompt (app w)
  /\ match o with
     | Resolved R =>
         status (app w') = SUCCESS
         /\ resultImage (app w') = Some R
         /\ error (app w') = error (app w)
         /\ needsApiKey (app w') = needsApiKey (app w)
     | Rejected message =>
         status (app w') = ERROR
         /\ resultImage (app w') = resultImage (app w)
         /\ error (app w') = Some (shown_message message)
         /\ needsApiKey (app w') =
            Js.includes_opt API_KEY_MARKER message || needsApiKey (app w)
     end.
Proof.
  intros Hr w'. subst w'. simpl.
  rewrite (settle_generate_pending _ _ _ _ Hr).
  destruct o as [R|message]; simpl; [tauto|].
  assert (Js.or_opt message FALLBACK_MESSAGE = shown_message message) as Hm.
  { destruct message as [[|c m]|]; reflexivity. }
  destruct (Js.includes_opt API_KEY_MARKER message); simpl; rewrite Hm; tauto.
Qed.

End EventLoopFacts.

(** ** The scenarios, run *)

Lemma idle_has_no_result_witness :
  resultImage (app (Demo.play Demo.upload_generate_reset)) = None.
Proof.
  apply (idle_has_no_result false Demo.studioWhite []).
  - now exists Demo.upload_generate_reset.
  - reflexivity.
Defined.

(** C3 as stated fails: pressing generate after a finished generation gives
    status [GENERATING] with the earlier result still in place. *)
Lemma idle_has_no_result_counterexample :
  ~ (forall w : World,
       reachable false Demo.studioWhite [] w ->
       resultImage (app w) <> None -> status (app w) = SUCCESS).
Proof.
  intros H.
  specialize (H (Demo.play Demo.generate_twice)).
  assert (GENERATING = SUCCESS) as Habs; [|discriminate Habs].
  apply H; [now exists Demo.generate_twice | discriminate].
Qed.

Lemma generate_ignored_while_generating_witness :
  step false Demo.studioWhite [] (Demo.play Demo.upload_generate)
       ClickGenerate
  = Demo.play Demo.upload_generate.
Proof.
  apply (generate_ignored_while_generating false Demo.studioWhite []).
  reflexivity.
Defined.

(** C2 as stated fails in its last part: starting over does not withdraw
    the pending call, and after a new upload the generate button is enabled
    again, so two calls are pending at once. *)
Lemma generate_ignored_while_generating_counterexample :
  ~ (forall w : World,
       reachable false Demo.studioWhite [] w -> length (calls w) <= 1).
Proof.
  intros H.
  specialize (H (Demo.play Demo.two_generations)).
  assert (2 <= 1) as Habs; [|lia].
  apply H. now exists Demo.two_generations.
Qed.

Lemma response_always_committed_witness :
  let w := Demo.play Demo.upload_generate_reset in
  let w' := step false Demo.studioWhite [] w
              (GenerateSettles 0 (Resolved "R1")) in
  status (app w) = IDLE
  /\ status (app w') = SUCCESS
  /\ resultImage (app w') = Some "R1"
  /\ originalImage (app w') = None.
Proof.
  pose proof (response_always_committed false Demo.studioWhite []
                (Demo.play Demo.upload_generate_reset) 0
                (mkRequest "data:image/png;base64,AAAA" "image/png"
                           "clean white studio backdrop")
                (Resolved "R1") eq_refl) as H.
  simpl in H. destruct H as (_ & Himg & _ & _ & _ & Hst & Hres & _).
  split; [reflexivity|]. split; [exact Hst|]. split; [exact Hres|].
  exact Himg.
Defined.

(** C1 as stated fails: a call still pending when the user starts over
    resolves later, and its response replaces the cleared state. *)
Lemma response_always_committed_counterexample :
  ~ stale_response_discarded false Demo.studioWhite [].
Proof.
  intros H.
  specialize (H Demo.upload_generate 0 (Resolved "R1") eq_refl).
  destruct H as [Hstatus _]. discriminate Hstatus.
Qed.

(** ** The guard of [handleGenerate] and the generate buttons *)

(** [handleGenerate] returns at its first line, leaving every cell as it is
    and calling nothing, exactly when the source image is missing or is the
    empty string. *)
Remark handleGenerate_returns_early (s : AppState) :
  handleGenerate s = (s, None) <-> Js.truthy_opt (originalImage s) = false.
Proof.
  split; [|apply handleGenerate_refuses].
  unfold handleGenerate, Js.truthy_opt.
  destruct (originalImage s) as [img|]; [|reflexivity].
  now destruct (Js.truthy img).
Qed.

Section Buttons.

Variable aistudio : bool.
Variable preset0 : Preset.
Variable more_presets : list Preset.

Local Abbreviation step' := (step aistudio preset0 more_presets).
Local Abbreviation run' := (run aistudio preset0 more_presets).
Local Abbreviation reachable' := (reachable aistudio preset0 more_presets).

(** A generate button that is rendered and enabled never does nothing: the
    click sets [GENERATING], clears the error and issues exactly one call,
    for the image on screen with its media type and the resolved prompt. *)
Theorem enabled_generate_issues_call (w : World) :
  needsApiKey (app w) = false -> generateDisabled (app w) = false ->
  exists img,
    originalImage (app w) = Some img /\ img <> ""
    /\ step' w ClickGenerate =
       mkWorld (app w ;> setStatus GENERATING ;> setError None)
               (calls w ++ [mkRequest img (originalMimeType (app w))
                              (resolvePrompt (customPrompt (app w))
                                             (selectedPreset (app w)))])
               (readers w) (selecting w) (checking w).
Proof.
  intros Hkey Hdis. simpl. rewrite Hkey, Hdis. simpl.
  unfold generateDisabled in Hdis. apply orb_false_elim in Hdis as [Himg _].
  apply negb_false_iff in Himg. unfold Js.truthy_opt in Himg.
  destruct (originalImage (app w)) as [img|] eqn:E; [|discriminate].
  exists img. apply truthy_nonempty in Himg.
  split; [reflexivity|]. split; [exact Himg|].
  now apply call_handleGenerate_accepts.
Qed.

(** No event but the click on an enabled generate button adds a pending
    call: not an upload, not a reset, not a response, and nothing at all
    while the onboarding screen is up or a generation is shown as running. *)
Theorem calls_grow_only_by_generate (w : World) (e : Event) :
  length (calls w) < length (calls (step' w e)) ->
  e = ClickGenerate
  /\ needsApiKey (app w) = false
  /\ status (app w) <> GENERATING
  /\ Js.truthy_opt (originalImage (app w)) = true.
Proof.
  destruct e; simpl.
  - destruct (checking w); simpl; lia.
  - destruct (needsApiKey (app w) && aistudio); simpl; lia.
  - destruct (selecting w); simpl; lia.
  - destruct (needsApiKey (app w)); [lia|]. destruct file; simpl; lia.
  - destruct (readers w !! i); simpl; lia.
  - destruct (needsApiKey (app w)); simpl; lia.
  - destruct (needsApiKey (app w)); simpl; [lia|].
    destruct (generateDisabled (app w)) eqn:Hdis; [lia|]. intros _.
    unfold generateDisabled in Hdis. apply orb_false_elim in Hdis as [Hi Hs].
    apply negb_false_iff in Hi.
    repeat split; [|exact Hi]. intros Hg. now rewrite Hg in Hs.
  - unfold settle_generate. destruct (calls w !! i) eqn:Hi; simpl; [|lia].
    rewrite length_delete by (now rewrite Hi). lia.
  - destruct (needsApiKey (app w)); [lia|].
    destruct (BACKDROP_PRESETS preset0 more_presets !! i); simpl; lia.
  - destruct (needsApiKey (app w)); simpl; lia.
Qed.

End Buttons.

(** ** Invariants of the state cells *)

Lemma or_opt_nonempty (message : option string) :
  Js.or_opt message FALLBACK_MESSAGE <> "".
Proof. destruct message as [[|c m]|]; discriminate. Qed.

Section CellInvariants.

Variable aistudio : bool.
Variable preset0 : Preset.
Variable more_presets : list Preset.

Local Abbreviation step' := (step aistudio preset0 more_presets).
Local Abbreviation run' := (run aistudio preset0 more_presets).
Local Abbreviation reachable' := (reachable aistudio preset0 more_presets).
Local Abbreviation catalog := (BACKDROP_PRESETS preset0 more_presets).

(** A property of the cells that every handler keeps is kept by every turn
    of the event loop. *)
Lemma step_preserves (P : AppState -> Prop) :
  (forall b s, P s -> P (setNeedsApiKey b s)) ->
  (forall f s, P s -> P (reader_onload f s)) ->
  (forall s, P s -> P (handleStartOver s)) ->
  (forall s, P s -> P (fst (handleGenerate s))) ->
  (forall o s, P s -> P (handleGenerate_settled o s)) ->
  (forall p s, p ∈ catalog -> P s -> P (selectPreset p s)) ->
  (forall t s, P s -> P (typePrompt t s)) ->
  forall w e, P (app w) -> P (app (step' w e)).
Proof.
  intros Hkey Hload Hreset Hgen Hsettle Hpreset Htype w e H.
  destruct e; simpl.
  - destruct (checking w); [apply Hkey|]; exact H.
  - now destruct (needsApiKey (app w) && aistudio).
  - destruct (selecting w); [|apply Hkey]; exact H.
  - destruct (needsApiKey (app w)); [exact H|]. now destruct file.
  - destruct (readers w !! i); [apply Hload|]; exact H.
  - destruct (needsApiKey (app w)); [|apply Hreset]; exact H.
  - destruct (needsApiKey (app w) || generateDisabled (app w)); [exact H|].
    unfold call_handleGenerate. specialize (Hgen _ H).
    now destruct (handleGenerate (app w)).
  - unfold settle_generate. destruct (calls w !! i); [apply Hsettle|]; exact H.
  - destruct (needsApiKey (app w)); [exact H|].
    destruct (catalog !! i) as [p|] eqn:Hp; [|exact H].
    apply Hpreset; [|exact H]. now apply list_elem_of_lookup_2 in Hp.
  - destruct (needsApiKey (app w)); [|apply Htype]; exact H.
Qed.

Lemma reachable_cells (P : AppState -> Prop) :
  P (initialState preset0) ->
  (forall w e, P (app w) -> P (app (step' w e))) ->
  forall w, reachable' w -> P (app w).
Proof.
  intros Hinit Hstep.
  apply (reachable_ind aistudio preset0 more_presets (fun w => P (app w)));
    [exact Hinit|]. intros w e _. apply Hstep.
Qed.

Lemma handleGenerate_status (s : AppState) :
  fst (handleGenerate s) = s
  \/ fst (handleGenerate s) = (s ;> setStatus GENERATING ;> setError None).
Proof.
  unfold handleGenerate. destruct (originalImage s) as [img|]; [|now left].
  destruct (Js.truthy img); [now right | now left].
Qed.

Lemma error_agrees_reachable (w : World) :
  reachable' w -> error_agrees (app w).
Proof.
  apply reachable_cells; [reflexivity|]. apply step_preserves.
  - intros b s H. exact H.
  - intros f s _. reflexivity.
  - intros s _. reflexivity.
  - intros s H. destruct (handleGenerate_status s) as [-> | ->];
      [exact H | reflexivity].
  - intros [R|message] s H.
    + unfold error_agrees in *. simpl.
      destruct (status s); try (intros e He; rewrite H in He; discriminate).
      * exact H.
      * destruct H as (e' & He' & Hne). intros e He.
        rewrite He' in He. now injection He as <-.
    + unfold error_agrees. simpl.
      destruct (Js.includes_opt API_KEY_MARKER message); simpl;
        eexists; (split; [reflexivity | apply or_opt_nonempty]).
  - intros p s _ H. exact H.
  - intros t s H. exact H.
Qed.


(** In every reachable state with status [IDLE] or [GENERATING] there is no
    error: reading a file, starting over and starting a generation each
    clear it, and only a failed call sets one. *)
Theorem no_error_while_idle_or_generating (w : World) :
  reachable' w ->
  status (app w) = IDLE \/ status (app w) = GENERATING ->
  error (app w) = None.
Proof.
  intros Hw Hs. apply error_agrees_reachable in Hw.
  unfold error_agrees in Hw. now destruct Hs as [Hs|Hs]; rewrite Hs in Hw.
Qed.

(** In every reachable state with status [SUCCESS] there is a result: the
    status is only set to [SUCCESS] together with [resultImage], and the
    result is only cleared together with a return to [IDLE]. *)
Theorem success_has_result (w : World) :
  reachable' w -> status (app w) = SUCCESS ->
  exists R, resultImage (app w) = Some R.
Proof.
  revert w.
  apply (reachable_cells
           (fun s => status s = SUCCESS -> exists R, resultImage s = Some R)).
  - discriminate.
  - apply (step_preserves
             (fun s => status s = SUCCESS -> exists R, resultImage s = Some R)).
    + intros b s H. exact H.
    + discriminate.
    + discriminate.
    + intros s H. destruct (handleGenerate_status s) as [-> | ->];
        [exact H | discriminate].
    + intros [R|message] s H; simpl; [eauto|].
      destruct (Js.includes_opt _ _); discriminate.
    + intros p s _ H. exact H.
    + intros t s H. exact H.
Qed.

End CellInvariants.

(** ** Invariants of the pending calls *)

Section CallInvariants.

Variable aistudio : bool.
Variable preset0 : Preset.
Variable more_presets : list Preset.

Local Abbreviation step' := (step aistudio preset0 more_presets).
Local Abbreviation run' := (run aistudio preset0 more_presets).
Local Abbreviation reachable' := (reachable aistudio preset0 more_presets).
Local Abbreviation catalog := (BACKDROP_PRESETS preset0 more_presets).

Lemma call_handleGenerate_calls (w : World) :
  (call_handleGenerate w = w /\ Js.truthy_opt (originalImage (app w)) = false)
  \/ exists img,
       originalImage (app w) = Some img /\ img <> ""
       /\ call_handleGenerate w =
          mkWorld (app w ;> setStatus GENERATING ;> setError None)
                  (calls w ++ [mkRequest img (originalMimeType (app w))
                                 (resolvePrompt (customPrompt (app w))
                                                (selectedPreset (app w)))])
                  (readers w) (selecting w) (checking w).
Proof.
  destruct (Js.truthy_opt (originalImage (app w))) eqn:Hi.
  - right. unfold Js.truthy_opt in Hi.
    destruct (originalImage (app w)) as [img|] eqn:E; [|discriminate].
    apply truthy_nonempty in Hi. exists img.
    split; [reflexivity|]. split; [exact Hi|].
    now apply call_handleGenerate_accepts.
  - left. split; [|reflexivity]. unfold call_handleGenerate.
    rewrite (handleGenerate_refuses _ Hi). simpl.
    rewrite app_nil_r. now destruct w.
Qed.

(** The service is never called without an image: in every reachable world
    each pending call carries a non-empty image. *)
Theorem pending_calls_have_image (w : World) :
  reachable' w -> Forall (fun r => req_image r <> "") (calls w).
Proof.
  revert w. apply reachable_ind; [constructor|].
  intros w e _ H. destruct e; simpl.
  - now destruct (checking w).
  - now destruct (needsApiKey (app w) && aistudio).
  - now destruct (selecting w).
  - destruct (needsApiKey (app w)); [exact H|]. now destruct file.
  - now destruct (readers w !! i).
  - now destruct (needsApiKey (app w)).
  - destruct (needsApiKey (app w) || generateDisabled (app w)); [exact H|].
    destruct (call_handleGenerate_calls w) as [[-> _]|(img & _ & Hne & ->)];
      [exact H|]. simpl. apply Forall_app_2; [exact H|].
    now repeat constructor.
  - unfold settle_generate. destruct (calls w !! i); [|exact H].
    simpl. now apply Forall_delete.
  - destruct (needsApiKey (app w)); [exact H|]. now destruct (catalog !! i).
  - now destruct (needsApiKey (app w)).
Qed.

Lemma generating_for_shown_image_reachable (w : World) :
  reachable' w -> generating_for_shown_image w.
Proof.
  revert w. apply reachable_ind; [discriminate|].
  intros w e _ H. unfold generating_for_shown_image in *.
  destruct e; simpl.
  - now destruct (checking w).
  - now destruct (needsApiKey (app w) && aistudio).
  - now destruct (selecting w).
  - destruct (needsApiKey (app w)); [exact H|]. now destruct file.
  - destruct (readers w !! i); [discriminate | exact H].
  - destruct (needsApiKey (app w)); [exact H | discriminate].
  - destruct (needsApiKey (app w) || generateDisabled (app w)); [exact H|].
    destruct (call_handleGenerate_calls w) as [[-> _]|(img & Hi & Hne & ->)];
      [exact H|]. simpl. intros _. eexists _, _. split; [reflexivity|].
    simpl. auto.
  - unfold settle_generate. destruct (calls w !! i); [|exact H].
    destruct o as [R|message]; simpl; [discriminate|].
    destruct (Js.includes_opt _ _); discriminate.
  - destruct (needsApiKey (app w)); [exact H|]. now destruct (catalog !! i).
  - now destruct (needsApiKey (app w)).
Qed.

(** In every reachable world with status [GENERATING] a call is pending: the
    one issued last, and it was issued for the image and media type now on
    screen. *)
Theorem generating_has_pending_call (w : World) :
  reachable' w -> status (app w) = GENERATING ->
  exists cs r,
    calls w = (cs ++ [r])%list
    /\ originalImage (app w) = Some (req_image r)
    /\ originalMimeType (app w) = req_mimeType r.
Proof.
  intros Hw Hs.
  destruct (generating_for_shown_image_reachable w Hw Hs)
    as (cs & r & Hc & Hi & Hm & _).
  now exists cs, r.
Qed.


End CallInvariants.

(** ** The preset catalog *)

Lemma same_id_same_preset (l : list Preset) (p q : Preset) :
  NoDup (map id l) -> p ∈ l -> q ∈ l -> id p = id q -> p = q.
Proof.
  induction l as [|x l IH]; intros Hnd Hp Hq Hid.
  - now apply elem_of_nil in Hp.
  - apply NoDup_cons in Hnd as [Hx Hnd].
    apply elem_of_cons in Hp as [->|Hp], Hq as [->|Hq].
    + reflexivity.
    + exfalso. apply Hx. rewrite Hid. now apply (list_elem_of_fmap_2 id).
    + exfalso. apply Hx. rewrite <- Hid. now apply (list_elem_of_fmap_2 id).
    + now apply IH.
Qed.

Section Catalog.

Variable aistudio : bool.
Variable preset0 : Preset.
Variable more_presets : list Preset.

Local Abbreviation reachable' := (reachable aistudio preset0 more_presets).
Local Abbreviation catalog := (BACKDROP_PRESETS preset0 more_presets).

Lemma selected_preset_in_catalog (w : World) :
  reachable' w -> selectedPreset (app w) ∈ catalog.
Proof.
  revert w. apply (reachable_cells aistudio preset0 more_presets
                     (fun s => selectedPreset s ∈ catalog)).
  - apply elem_of_cons. now left.
  - apply (step_preserves aistudio preset0 more_presets
             (fun s => selectedPreset s ∈ catalog)).
    + intros b s H. exact H.
    + intros f s H. exact H.
    + intros s H. exact H.
    + intros s H. now destruct (handleGenerate_status s) as [-> | ->].
    + intros [R|message] s H; simpl; [exact H|].
      now destruct (Js.includes_opt _ _).
    + intros p s Hp _. exact Hp.
    + intros t s H. exact H.
Qed.

(** When the catalog's ids are distinct, the preset button drawn as selected
    tells what a generation will send: in every reachable world, if the
    button of a catalog preset is highlighted, that preset is the selected
    one, the custom prompt is empty and the resolved prompt is the preset's
    description; so at most one button is highlighted. *)
Theorem highlighted_preset_is_sent (w : World) (p : Preset) :
  NoDup (map id catalog) -> reachable' w -> p ∈ catalog ->
  View.presetHighlighted p (app w) = true ->
  selectedPreset (app w) = p
  /\ customPrompt (app w) = ""
  /\ resolvePrompt (customPrompt (app w)) (selectedPreset (app w))
     = description p.
Proof.
  intros Hnd Hw Hp Hh. unfold View.presetHighlighted in Hh.
  apply andb_prop in Hh as [Hid Hc].
  apply String.eqb_eq in Hid. apply negb_true_iff in Hc.
  assert (customPrompt (app w) = "") as Hempty.
  { destruct (customPrompt (app w)); [reflexivity | discriminate]. }
  assert (selectedPreset (app w) = p) as Hsel.
  { apply (same_id_same_preset catalog); auto.
    now apply selected_preset_in_catalog. }
  now rewrite Hempty, Hsel.
Qed.

End Catalog.

(** ** The credential screen *)

Section CredentialScreen.

Variable preset0 : Preset.
Variable more_presets : list Preset.

Lemma nothing_pending_without_host (w : World) :
  reachable false preset0 more_presets w -> nothing_pending_at_host w.
Proof.
  revert w. apply reachable_ind; [now split|].
  intros w e _ [Hc Hs]. unfold nothing_pending_at_host.
  destruct e; simpl.
  - now rewrite Hc.
  - now rewrite andb_false_r.
  - now rewrite Hs.
  - destruct (needsApiKey (app w)); [now split|]. now destruct file.
  - now destruct (readers w !! i).
  - now destruct (needsApiKey (app w)).
  - destruct (needsApiKey (app w) || generateDisabled (app w)); [now split|].
    unfold call_handleGenerate. now destruct (handleGenerate (app w)).
  - unfold settle_generate. now destruct (calls w !! i).
  - destruct (needsApiKey (app w)); [now split|].
    now destruct (BACKDROP_PRESETS preset0 more_presets !! i).
  - now destruct (needsApiKey (app w)).
Qed.

Lemma step_stays_blocked (w : World) (e : Event) :
  nothing_pending_at_host w -> needsApiKey (app w) = true ->
  nothing_pending_at_host (step false preset0 more_presets w e)
  /\ needsApiKey (app (step false preset0 more_presets w e)) = true.
Proof.
  intros [Hc Hs] Hk. unfold nothing_pending_at_host.
  destruct e; simpl; rewrite ?Hc, ?Hs, ?Hk; simpl; auto.
  - destruct (readers w !! i); simpl; auto.
  - unfold settle_generate. destruct (calls w !! i); simpl; auto.
    destruct o as [R|message]; simpl; auto.
    destruct (Js.includes_opt _ _); simpl; auto.
Qed.

(** On a host without [window.aistudio] the onboarding screen is final: once
    a failure with the marker has raised [needsApiKey], the connect button
    does nothing and no later event lowers the flag, so the editor is never
    rendered again. *)
Theorem onboarding_final_without_host (w : World) (es : list Event) :
  reachable false preset0 more_presets w ->
  needsApiKey (app w) = true ->
  View.onboarding (app (run false preset0 more_presets w es)) = true.
Proof.
  intros Hw Hk. apply nothing_pending_without_host in Hw.
  unfold View.onboarding. revert w Hw Hk.
  induction es as [|e es IH]; intros w Hw Hk; [exact Hk|].
  simpl. destruct (step_stays_blocked w e Hw Hk) as [Hw' Hk'].
  now apply IH.
Qed.

(** On a host with [window.aistudio], pressing connect on the onboarding
    screen and letting the selection flow return lowers [needsApiKey]
    whatever the user did in the flow, and changes nothing else: the editor
    comes back with the image, status and error it had. *)
Theorem connect_returns_to_editor (w : World) :
  needsApiKey (app w) = true ->
  run true preset0 more_presets w [ClickConnect; SelectKeyReturns]
  = with_app (setNeedsApiKey false) w.
Proof.
  intros Hk. simpl. rewrite Hk. reflexivity.
Qed.

(** An upload followed by a click on generate: with the editor on screen,
    whatever the status was, reading a file with a non-empty data URL and
    pressing generate leaves status [GENERATING], no result and no error,
    and issues one call for that file, its type and the resolved prompt. *)
Theorem upload_then_generate (aistudio : bool) (w : World) (f : File) :
  needsApiKey (app w) = false -> file_dataURL f <> "" ->
  run aistudio preset0 more_presets w
      [ChooseFile (Some f); ReaderLoads (length (readers w)); ClickGenerate]
  = mkWorld (mkAppState GENERATING (Some (file_dataURL f)) (file_type f) None
               (selectedPreset (app w)) (customPrompt (app w)) None false)
            (calls w ++ [mkRequest (file_dataURL f) (file_type f)
                           (resolvePrompt (customPrompt (app w))
                                          (selectedPreset (app w)))])
            (readers w) (selecting w) (checking w).
Proof.
  intros Hk Hf. simpl. rewrite Hk. simpl.
  rewrite (list_lookup_middle (readers w) [] f _ eq_refl). simpl.
  rewrite Hk. unfold generateDisabled, Js.truthy_opt. simpl.
  apply truthy_nonempty in Hf as Ht. rewrite Ht. simpl.
  rewrite delete_middle, app_nil_r.
  unfold call_handleGenerate, handleGenerate. simpl. rewrite Ht. simpl.
  unfold reader_onload, setError, setStatus. simpl. now rewrite Hk.
Qed.

End CredentialScreen.

(** ** Export *)

Lemma decimal_inj (a b : Z) : decimal a = decimal b -> a = b.
Proof.
  assert (forall z, NilZero.int_of_string (decimal z) = Some (Z.to_int z))
    as Hparse.
  { intros z. apply NilZero.isi; destruct z; simpl; try discriminate;
      intros [= H]; now apply DecimalPos.Unsigned.to_uint_nonnil in H. }
  intros H. apply DecimalZ.to_int_inj.
  pose proof (Hparse a) as Ha. rewrite H, Hparse in Ha. congruence.
Qed.

Lemma append_inj_r (a b s : string) : a ++ s = b ++ s -> a = b.
Proof.
  intros H. apply (f_equal list_ascii_of_string) in H.
  rewrite <- (string_of_list_ascii_of_string a),
          <- (string_of_list_ascii_of_string b).
  f_equal. revert H.
  assert (forall x y, list_ascii_of_string (x ++ y)
                      = (list_ascii_of_string x ++ list_ascii_of_string y)%list)
    as Happ.
  { induction x as [|c x IH]; intros y; simpl; [reflexivity|]. now rewrite IH. }
  rewrite !Happ. apply app_inv_tail.
Qed.

(** Downloads made at different clock values get different names, whatever
    the results downloaded: the name is the clock value in decimal between a
    fixed prefix and ".png". *)
Theorem download_names_distinct (now1 now2 : Z) (s1 s2 : AppState)
    (d1 d2 : Download) :
  downloadImage now1 s1 = Some d1 -> downloadImage now2 s2 = Some d2 ->
  now1 <> now2 -> download d1 <> download d2.
Proof.
  unfold downloadImage. intros H1 H2 Hne Heq. apply Hne.
  destruct (resultImage s1) as [r1|]; [|discriminate].
  destruct (resultImage s2) as [r2|]; [|discriminate].
  destruct (Js.truthy r1); [|discriminate].
  destruct (Js.truthy r2); [|discriminate].
  injection H1 as <-. injection H2 as <-. simpl in Heq.
  unfold downloadName in Heq. injection Heq as Heq.
  apply decimal_inj. now apply (append_inj_r _ _ ".png").
Qed.


(** ** The further properties, run *)

Lemma enabled_generate_issues_call_witness :
  exists img,
    originalImage (app (Demo.play Demo.finished)) = Some img /\ img <> ""
    /\ step false Demo.studioWhite [] (Demo.play Demo.finished) ClickGenerate
       = mkWorld (app (Demo.play Demo.finished)
                    ;> setStatus GENERATING ;> setError None)
                 [mkRequest img "image/png" "clean white studio backdrop"]
                 [] 0 false.
Proof.
  apply (enabled_generate_issues_call false Demo.studioWhite []
           (Demo.play Demo.finished)); reflexivity.
Defined.

Lemma calls_grow_only_by_generate_witness :
  ClickGenerate = ClickGenerate
  /\ needsApiKey (app (Demo.play Demo.finished)) = false
  /\ status (app (Demo.play Demo.finished)) <> GENERATING
  /\ Js.truthy_opt (originalImage (app (Demo.play Demo.finished))) = true.
Proof.
  apply (calls_grow_only_by_generate false Demo.studioWhite []
           (Demo.play Demo.finished) ClickGenerate).
  simpl. lia.
Defined.


Lemma no_error_while_idle_or_generating_witness :
  error (app (Demo.play Demo.generate_twice)) = None.
Proof.
  apply (no_error_while_idle_or_generating false Demo.studioWhite []).
  - now exists Demo.generate_twice.
  - right. reflexivity.
Defined.

Lemma success_has_result_witness :
  exists R, resultImage (app (Demo.play Demo.finished)) = Some R.
Proof.
  apply (success_has_result false Demo.studioWhite []).
  - now exists Demo.finished.
  - reflexivity.
Defined.

Lemma pending_calls_have_image_witness :
  Forall (fun r => req_image r <> "")
         (calls (Demo.play Demo.two_generations)).
Proof.
  apply (pending_calls_have_image false Demo.studioWhite []).
  now exists Demo.two_generations.
Defined.

Lemma generating_has_pending_call_witness :
  exists cs r,
    calls (Demo.play Demo.two_generations) = (cs ++ [r])%list
    /\ originalImage (app (Demo.play Demo.two_generations))
       = Some (req_image r)
    /\ originalMimeType (app (Demo.play Demo.two_generations))
       = req_mimeType r.
Proof.
  apply (generating_has_pending_call false Demo.studioWhite []).
  - now exists Demo.two_generations.
  - reflexivity.
Defined.


Lemma highlighted_preset_is_sent_witness :
  selectedPreset (app (Demo.play Demo.finished)) = Demo.studioWhite
  /\ customPrompt (app (Demo.play Demo.finished)) = ""
  /\ resolvePrompt (customPrompt (app (Demo.play Demo.finished)))
                   (selectedPreset (app (Demo.play Demo.finished)))
     = "clean white studio backdrop".
Proof.
  apply (highlighted_preset_is_sent false Demo.studioWhite []
           (Demo.play Demo.finished) Demo.studioWhite).
  - apply NoDup_singleton.
  - now exists Demo.finished.
  - apply list_elem_of_singleton. reflexivity.
  - reflexivity.
Defined.

Lemma onboarding_final_without_host_witness :
  View.onboarding
    (app (run false Demo.studioWhite []
            (Demo.play Demo.credential_failure)
            [ClickConnect; SelectKeyReturns; ClickStartOver]))
  = true.
Proof.
  apply (onboarding_final_without_host Demo.studioWhite []).
  - now exists Demo.credential_failure.
  - reflexivity.
Defined.

Lemma connect_returns_to_editor_witness :
  let w := run true Demo.studioWhite [] (initialWorld true Demo.studioWhite)
               [CheckKeyReturns false] in
  run true Demo.studioWhite [] w [ClickConnect; SelectKeyReturns]
  = with_app (setNeedsApiKey false) w.
Proof.
  apply (connect_returns_to_editor Demo.studioWhite []). reflexivity.
Defined.

Lemma upload_then_generate_witness :
  run false Demo.studioWhite [] (Demo.play Demo.finished)
      [ChooseFile (Some Demo.photo2); ReaderLoads 0; ClickGenerate]
  = mkWorld (mkAppState GENERATING (Some "data:image/jpeg;base64,BBBB")
               "image/jpeg" None Demo.studioWhite "" None false)
            [mkRequest "data:image/jpeg;base64,BBBB" "image/jpeg"
                       "clean white studio backdrop"]
            [] 0 false.
Proof.
  apply (upload_then_generate Demo.studioWhite [] false
           (Demo.play Demo.finished) Demo.photo2).
  - reflexivity.
  - discriminate.
Defined.

Lemma download_names_distinct_witness :
  "styleswap-gemini3-1762077600123.png"
  <> "styleswap-gemini3-1762077600124.png".
Proof.
  apply (download_names_distinct 1762077600123 1762077600124
           (app (Demo.play Demo.finished)) (app (Demo.play Demo.finished))
           (mkDownload "R1" "styleswap-gemini3-1762077600123.png")
           (mkDownload "R1" "styleswap-gemini3-1762077600124.png")).
  - reflexivity.
  - reflexivity.
  - discriminate.
Defined.

